(** * The image-caching service worker (sw.js)

    A shallow embedding of the worker's classifier, trust policy and event
    handlers, and the properties of them that the specification states.

    The worker runs against a browser: the URL parser, the network, the
    cache storage, the console and the message channel are the platform's.
    They are modelled as an explicit world that the handlers thread through
    (a promise is a function from the world to a settled result and the
    world after it), with the platform's own answers (what a URL parses to,
    what the network returns, whether a write to storage fails) taken as
    variables of the development. *)

From Stdlib Require Import String Ascii List Bool NArith Arith Lia.
Import ListNotations.
Open Scope string_scope.
Open Scope bool_scope.

(** ** Strings as the code uses them

    A URL string that a Request carries is serialised by the platform and is
    ASCII only, so one character of the model is one UTF-16 code unit of the
    JavaScript string. *)

(** [String.prototype.toLowerCase], on one character. *)
Definition lowerChar (c : ascii) : ascii :=
  let n := nat_of_ascii c in
  if ((65 <=? n)%nat && (n <=? 90)%nat) then ascii_of_nat (n + 32) else c.

(** [s.toLowerCase()]. *)
Fixpoint toLowerCase (s : string) : string :=
  match s with
  | EmptyString => EmptyString
  | String c s' => String (lowerChar c) (toLowerCase s')
  end.

(** [s.startsWith(p)]. *)
Definition startsWith (s p : string) : bool := String.prefix p s.

(** [s.includes(sub)]: [sub] starts at some position of [s]. *)
Fixpoint includes (s sub : string) : bool :=
  startsWith s sub ||
  match s with
  | EmptyString => false
  | String _ s' => includes s' sub
  end.

(** [s.substring(0, n)]. *)
Definition substring0 (n : nat) (s : string) : string := String.substring 0 n s.

(** [sub] occurs in [s]: the meaning of "contains as a substring". *)
Definition Substring (sub s : string) : Prop :=
  exists before after, s = before ++ sub ++ after.

(** ** Data model *)

(** An exception or a rejection reason, by its message. *)
Definition Error := string.

(** What a call that may throw gives back. *)
Inductive Result (A : Type) : Type :=
| Ok (a : A)
| Throw (e : Error).
Arguments Ok {A} a.
Arguments Throw {A} e.

(** The attributes of the incoming request that the worker reads. *)
Record Request : Type := mkRequest {
  method : string;
  url : string;
  destination : string
}.

(** The attributes of a parsed [URL] object that the worker reads. *)
Record URL : Type := mkURL {
  origin : string;
  hostname : string;
  pathname : string
}.

(** A captured response. *)
Record Response : Type := mkResponse {
  status : N;
  headers : list (string * string);
  body : string
}.

(** [response.clone()]: a second, independently readable copy. *)
Definition clone (r : Response) : Response := r.

(** [new Response('', { status: 404 })]: a string body makes the platform
    set the content type. *)
Definition emptyResponse (st : N) : Response :=
  {| status := st;
     headers := [("content-type", "text/plain;charset=UTF-8")];
     body := "" |}.

Definition CACHE_NAME : string := "yaki-image-cache-v1".

Definition ALLOWED_IMAGE_DOMAINS : list string :=
  [ "github.com";
    "raw.githubusercontent.com";
    "images.unsplash.com";
    "cdn.pixabay.com";
    "i.imgur.com";
    "res.cloudinary.com";
    "storage.googleapis.com";
    "firebasestorage.googleapis.com";
    "lh3.googleusercontent.com" ].

Definition imageExtensions : list string :=
  [".jpg"; ".jpeg"; ".png"; ".gif"; ".webp"; ".svg"; ".ico"; ".bmp"].

Definition invalidURL : Error := "TypeError: Invalid URL".

(** ** The platform's state

    One cache is an ordered list of entries, a key and the response filed
    under it; the cache storage is the list of the named caches in the order
    they were created, which is the order [caches.keys()] lists them in and
    [caches.match] searches them in. *)

Definition Cache : Type := list (string * Response).
Definition CacheStorage : Type := list (string * Cache).

(** One argument of a console call. *)
Inductive ConsoleArg : Type :=
| Str (s : string)
| Err (e : Error).

Inductive ConsoleEntry : Type :=
| ConsoleLog (args : list ConsoleArg)
| ConsoleError (args : list ConsoleArg).

(** The tagged record exchanged with the page. *)
Record ControlMessage : Type := mkControlMessage {
  action : string;
  count : option nat
}.

Record World : Type := mkWorld {
  caches : CacheStorage;          (* the origin's cache storage *)
  console : list ConsoleEntry;    (* what the worker wrote to the console *)
  fetched : list Request;         (* the network requests issued by fetch() *)
  posted : list ControlMessage;   (* the messages sent to event.source *)
  unhandled : list Error;         (* rejections of promises nobody handles *)
  claimed : bool                  (* clients.claim() was called *)
}.

Definition setCaches (cs : CacheStorage) (w : World) : World :=
  mkWorld cs (console w) (fetched w) (posted w) (unhandled w) (claimed w).

Definition addConsole (e : ConsoleEntry) (w : World) : World :=
  mkWorld (caches w) (console w ++ [e])%list (fetched w) (posted w) (unhandled w)
          (claimed w).

Definition addFetched (r : Request) (w : World) : World :=
  mkWorld (caches w) (console w) (fetched w ++ [r])%list (posted w) (unhandled w)
          (claimed w).

Definition addPosted (m : ControlMessage) (w : World) : World :=
  mkWorld (caches w) (console w) (fetched w) (posted w ++ [m])%list (unhandled w)
          (claimed w).

Definition addUnhandled (e : Error) (w : World) : World :=
  mkWorld (caches w) (console w) (fetched w) (posted w) (unhandled w ++ [e])%list
          (claimed w).

Definition setClaimed (w : World) : World :=
  mkWorld (caches w) (console w) (fetched w) (posted w) (unhandled w) true.

(** *** Cache storage operations *)

(** [cache.match]: the first entry filed under the key. *)
Fixpoint cacheMatch (c : Cache) (key : string) : option Response :=
  match c with
  | [] => None
  | (k, r) :: c' => if k =? key then Some r else cacheMatch c' key
  end.

(** [caches.match]: the first cache, in creation order, with a match. *)
Fixpoint storageMatch (cs : CacheStorage) (key : string) : option Response :=
  match cs with
  | [] => None
  | (_, c) :: cs' =>
      match cacheMatch c key with
      | Some r => Some r
      | None => storageMatch cs' key
      end
  end.

(** [caches.keys()]. *)
Definition storageKeys (cs : CacheStorage) : list string := map fst cs.

(** [caches.has(name)]. *)
Definition storageHas (cs : CacheStorage) (name : string) : bool :=
  existsb (fun n => n =? name) (storageKeys cs).

(** The cache filed under a name. *)
Fixpoint storageLookup (cs : CacheStorage) (name : string) : option Cache :=
  match cs with
  | [] => None
  | (n, c) :: cs' => if n =? name then Some c else storageLookup cs' name
  end.

(** [caches.open(name)]: creates an empty cache when there is none. *)
Definition storageOpen (cs : CacheStorage) (name : string) : CacheStorage :=
  if storageHas cs name then cs else (cs ++ [(name, [])])%list.

(** [caches.delete(name)]. *)
Definition storageDelete (cs : CacheStorage) (name : string) : CacheStorage :=
  filter (fun entry => negb (fst entry =? name)) cs.

(** [cache.put]: replaces what was filed under the key. *)
Definition cachePut (c : Cache) (key : string) (r : Response) : Cache :=
  (filter (fun entry => negb (fst entry =? key)) c ++ [(key, r)])%list.

(** [cache.put] on the cache of that name. *)
Definition storagePut (cs : CacheStorage) (name key : string) (r : Response)
  : CacheStorage :=
  map (fun entry =>
         if fst entry =? name then (fst entry, cachePut (snd entry) key r)
         else entry) cs.

(** [cache.keys()] on the cache of that name. *)
Definition storageCacheKeys (cs : CacheStorage) (name : string) : list string :=
  match storageLookup cs name with
  | Some c => map fst c
  | None => []
  end.

(** *** Promises

    A promise is run against the world and settles. *)

Inductive Settled (A : Type) : Type :=
| Fulfilled (a : A)
| Rejected (e : Error).
Arguments Fulfilled {A} a.
Arguments Rejected {A} e.

Definition Promise (A : Type) : Type := World -> Settled A * World.

Definition resolve {A : Type} (a : A) : Promise A :=
  fun w => (Fulfilled a, w).

Definition reject {A : Type} (e : Error) : Promise A :=
  fun w => (Rejected e, w).

(** [p.then(k)]. *)
Definition andThen {A B : Type} (p : Promise A) (k : A -> Promise B)
  : Promise B :=
  fun w =>
    match p w with
    | (Fulfilled a, w') => k a w'
    | (Rejected e, w') => (Rejected e, w')
    end.

(** [p.catch(h)]. *)
Definition orCatch {A : Type} (p : Promise A) (h : Error -> Promise A)
  : Promise A :=
  fun w =>
    match p w with
    | (Fulfilled a, w') => (Fulfilled a, w')
    | (Rejected e, w') => h e w'
    end.

(** A promise that is started and dropped: the caller goes on whatever it
    settles to, and a rejection is left without a handler. *)
Definition detach {A : Type} (p : Promise A) : Promise unit :=
  fun w =>
    match p w with
    | (Fulfilled _, w') => (Fulfilled tt, w')
    | (Rejected e, w') => (Fulfilled tt, addUnhandled e w')
    end.

(** [Promise.all]: every promise of the list has been started, so each one
    runs; the result is the first rejection, if any. *)
Fixpoint promiseAll {A : Type} (ps : list (Promise A)) : Promise (list A) :=
  match ps with
  | [] => resolve []
  | p :: ps' =>
      fun w =>
        match p w with
        | (Fulfilled a, w') =>
            match promiseAll ps' w' with
            | (Fulfilled l, w'') => (Fulfilled (a :: l), w'')
            | (Rejected e, w'') => (Rejected e, w'')
            end
        | (Rejected e, w') => (Rejected e, snd (promiseAll ps' w'))
        end
  end.

Declare Scope promise_scope.
Delimit Scope promise_scope with promise.
Notation "x <- p ;; k" := (andThen p (fun x => k))
  (at level 100, p at next level, right associativity) : promise_scope.
Notation "p ;; k" := (andThen p (fun _ => k))
  (at level 100, right associativity) : promise_scope.
Open Scope promise_scope.

(** *** Platform calls that cannot fail here

    Reads of the storage, opening and deleting a cache, the console and the
    message channel always succeed in this model; the network and a write
    to a cache may fail (see the variables of the next section). *)

Definition consoleLog (args : list ConsoleArg) : Promise unit :=
  fun w => (Fulfilled tt, addConsole (ConsoleLog args) w).

Definition consoleError (args : list ConsoleArg) : Promise unit :=
  fun w => (Fulfilled tt, addConsole (ConsoleError args) w).

Definition postMessage (m : ControlMessage) : Promise unit :=
  fun w => (Fulfilled tt, addPosted m w).

Definition clientsClaim : Promise unit :=
  fun w => (Fulfilled tt, setClaimed w).

Definition cachesKeys : Promise (list string) :=
  fun w => (Fulfilled (storageKeys (caches w)), w).

(** The handle that [caches.open] gives is the name of the cache. *)
Definition cachesOpen (name : string) : Promise string :=
  fun w => (Fulfilled name, setCaches (storageOpen (caches w) name) w).

Definition cachesDelete (name : string) : Promise bool :=
  fun w => (Fulfilled (storageHas (caches w) name),
            setCaches (storageDelete (caches w) name) w).

Definition cacheKeys (cache : string) : Promise (list string) :=
  fun w => (Fulfilled (storageCacheKeys (caches w) cache), w).

(** What [fetch] settles to. *)
Inductive FetchOutcome : Type :=
| NetResolves (r : option Response)
| NetRejects (e : Error).

(** What became of a fetch event. *)
Inductive FetchHandling : Type :=
| NotIntercepted                              (* the listener returned *)
| ListenerThrew (e : Error)                   (* an exception left it *)
| RespondedWith (r : Settled (option Response)). (* event.respondWith *)

(** ** A small platform to run the definitions on

    [sampleParse] does what [new URL] does on an absolute http or https URL
    that is already in the form the platform serialises it to: a lower-case
    domain name for a host, no credentials and no port, a path of plain
    characters without dot segments. It gives [None] on everything else;
    for a string with no scheme, such as ["not a url"], so does the
    platform. The examples below only use such inputs. *)

Fixpoint span (stop : ascii -> bool) (s : string) : string * string :=
  match s with
  | EmptyString => (EmptyString, EmptyString)
  | String c s' =>
      if stop c then (EmptyString, s)
      else let (a, b) := span stop s' in (String c a, b)
  end.

Fixpoint allChars (ok : ascii -> bool) (s : string) : bool :=
  match s with
  | EmptyString => true
  | String c s' => ok c && allChars ok s'
  end.

Definition between (lo hi : nat) (c : ascii) : bool :=
  ((lo <=? nat_of_ascii c)%nat && (nat_of_ascii c <=? hi)%nat).

Definition isHostChar (c : ascii) : bool :=
  between 97 122 c || between 48 57 c || Ascii.eqb c "." || Ascii.eqb c "-".

Definition isPathChar (c : ascii) : bool :=
  isHostChar c || between 65 90 c || Ascii.eqb c "/" || Ascii.eqb c "_".

Definition endsHost (c : ascii) : bool :=
  Ascii.eqb c "/" || Ascii.eqb c "?" || Ascii.eqb c "#".

Definition endsPath (c : ascii) : bool :=
  Ascii.eqb c "?" || Ascii.eqb c "#".

Definition sampleParseWith (scheme s : string) : option URL :=
  if startsWith s scheme then
    let rest := String.substring (String.length scheme) (String.length s) s in
    let (host, tail) := span endsHost rest in
    let (path, _) := span endsPath tail in
    if negb (host =? "") && allChars isHostChar host
       && allChars isPathChar path && negb (includes path "/.")
    then Some {| origin := scheme ++ host;
                 hostname := host;
                 pathname := if path =? "" then "/" else path |}
    else None
  else None.

Definition sampleParse (s : string) : option URL :=
  match sampleParseWith "https://" s with
  | Some u => Some u
  | None => sampleParseWith "http://" s
  end.

(** The worker of the examples is served from here. *)
Definition sampleOrigin : string := "https://shop.example".

(** The key of a request whose URL has no fragment is the URL. *)
Definition sampleKeyOf (r : Request) : string := url r.

(** A world in which nothing has happened yet. *)
Definition emptyWorld : World := mkWorld [] [] [] [] [] false.

Definition worldWithCaches (cs : CacheStorage) : World :=
  mkWorld cs [] [] [] [] false.

(** An image of the worker's own origin, one of a host outside the allowed
    list, and a request object whose URL string is no URL. *)
Definition logoRequest : Request :=
  {| method := "GET";
     url := "https://shop.example/img/Logo.PNG";
     destination := "" |}.

Definition foreignRequest : Request :=
  {| method := "GET";
     url := "https://media.example/pic.png";
     destination := "image" |}.

Definition pageRequest : Request :=
  {| method := "GET";
     url := "https://shop.example/index.html";
     destination := "document" |}.

Definition malformedRequest : Request :=
  {| method := "GET"; url := "not a url"; destination := "image" |}.

Definition pngResponse : Response :=
  {| status := 200; headers := [("content-type", "image/png")]; body := "PNG" |}.

Definition movedResponse : Response :=
  {| status := 302; headers := [("location", "/img/logo2.png")]; body := "" |}.

Definition networkUp (_ : Request) : FetchOutcome :=
  NetResolves (Some pngResponse).

Definition networkMoved (_ : Request) : FetchOutcome :=
  NetResolves (Some movedResponse).

Definition networkDown (_ : Request) : FetchOutcome :=
  NetRejects "TypeError: Failed to fetch".

Definition putWorks (_ : Request) (_ : Response) : option Error := None.

Definition putOverQuota (_ : Request) (_ : Response) : option Error :=
  Some "QuotaExceededError".

(** A storage that already holds the logo, and one with three generations
    and a cache of another name. *)
Definition storageWithLogo : CacheStorage :=
  [("yaki-image-cache-v1", [("https://shop.example/img/Logo.PNG", pngResponse)])].

Definition storageWithGenerations : CacheStorage :=
  [("yaki-image-cache-v0", [("https://shop.example/img/old.png", pngResponse)]);
   ("fonts", []);
   ("yaki-image-cache-v1", [("https://shop.example/img/Logo.PNG", pngResponse)]);
   ("yaki-image-cache-v2", [])].

(** ** The worker *)

Section Worker.

(** [new URL(s)]: [None] when the constructor throws. *)
Variable parseURL : string -> option URL.

(** [self.location.origin]. *)
Variable selfOrigin : string.

(** The key under which the cache storage files a request. *)
Variable keyOf : Request -> string.

(** What the network answers to a request. *)
Variable network : Request -> FetchOutcome.

(** Whether the storage refuses to write a response under a request, and
    with what error. *)
Variable putFailure : Request -> Response -> option Error.

(** [isImageRequest(request)]. The URL is parsed first, outside any [try];
    the destination is looked at after that. *)
Definition isImageRequest (request : Request) : Result bool :=
  match parseURL (url request) with
  | None => Throw invalidURL
  | Some u =>
      if destination request =? "image" then Ok true
      else
        let pathname := toLowerCase (pathname u) in
        Ok (existsb (fun ext => includes pathname ext) imageExtensions)
  end.

(** [isAllowedDomain(url)]. *)
Definition isAllowedDomain (url : string) : bool :=
  match parseURL url with
  | Some urlObj =>
      if origin urlObj =? selfOrigin then true
      else existsb (fun domain => includes (hostname urlObj) domain)
                   ALLOWED_IMAGE_DOMAINS
  | None => false
  end.

(** [caches.match(request)]. *)
Definition cachesMatch (request : Request) : Promise (option Response) :=
  fun w => (Fulfilled (storageMatch (caches w) (keyOf request)), w).

(** [fetch(request)]. *)
Definition fetch (request : Request) : Promise (option Response) :=
  fun w =>
    match network request with
    | NetResolves r => (Fulfilled r, addFetched request w)
    | NetRejects e => (Rejected e, addFetched request w)
    end.

(** [cache.put(request, response)]. *)
Definition cachePutRequest (cache : string) (request : Request)
  (response : Response) : Promise unit :=
  fun w =>
    match putFailure request response with
    | Some e => (Rejected e, w)
    | None =>
        (Fulfilled tt,
         setCaches (storagePut (caches w) cache (keyOf request) response) w)
    end.

(** The shortened URL of the log lines. *)
Definition shortURL (request : Request) : string :=
  substring0 80 (url request) ++ "...".

(** The promise handed to [event.respondWith]. *)
Definition respondCacheFirst (request : Request) : Promise (option Response) :=
  cachedResponse <- cachesMatch request ;;
  match cachedResponse with
  | Some cached =>
      consoleLog [Str "[SW] 📦 From cache:"; Str (shortURL request)] ;;
      resolve (Some cached)
  | None =>
      orCatch
        (networkResponse <- fetch request ;;
         match networkResponse with
         | None => resolve None
         | Some response =>
             if negb (status response =? 200)%N then resolve (Some response)
             else
               (if isAllowedDomain (url request)
                   || startsWith (url request) selfOrigin
                then
                  let responseToCache := clone response in
                  detach
                    (cache <- cachesOpen CACHE_NAME ;;
                     detach (cachePutRequest cache request responseToCache) ;;
                     consoleLog [Str "[SW] 💾 Cached:"; Str (shortURL request)])
                else resolve tt) ;;
               resolve (Some response)
         end)
        (fun error =>
           consoleError [Str "[SW] Fetch failed:"; Err error] ;;
           resolve (Some (emptyResponse 404)))
  end.

(** The [fetch] listener. *)
Definition onFetch (request : Request) (w : World) : FetchHandling * World :=
  if negb (method request =? "GET") then (NotIntercepted, w)
  else
    match isImageRequest request with
    | Throw e => (ListenerThrew e, w)
    | Ok false => (NotIntercepted, w)
    | Ok true =>
        let (r, w') := respondCacheFirst request w in (RespondedWith r, w')
    end.

(** The names that activation deletes. *)
Definition isOldGeneration (name : string) : bool :=
  startsWith name "yaki-image-cache-" && negb (name =? CACHE_NAME).

(** A console entry that reports an error: one of its arguments is the
    error, as in [console.error('[SW] Fetch failed:', error)]. *)
Definition reportsError (entry : ConsoleEntry) : bool :=
  existsb (fun arg =>
             match arg with
             | Err _ => true
             | Str _ => false
             end)
          match entry with
          | ConsoleLog args => args
          | ConsoleError args => args
          end.

(** What activation does with one old name. *)
Definition deleteOldCache (name : string) : Promise bool :=
  consoleLog [Str "[SW] Deleting old cache:"; Str name] ;;
  cachesDelete name.

(** The [activate] listener: the promise handed to [event.waitUntil]. *)
Definition onActivate : Promise unit :=
  consoleLog [Str "[SW] Service Worker activated"] ;;
  cacheNames <- cachesKeys ;;
  promiseAll (map deleteOldCache (filter isOldGeneration cacheNames)) ;;
  clientsClaim.

(** [event.data && event.data.action === tag]. *)
Definition hasAction (data : option ControlMessage) (tag : string) : bool :=
  match data with
  | Some d => action d =? tag
  | None => false
  end.

(** The [message] listener; both chains are started and dropped. *)
Definition onMessage (data : option ControlMessage) : Promise unit :=
  (if hasAction data "clearImageCache" then
     detach
       (cachesDelete CACHE_NAME ;;
        consoleLog [Str "[SW] 🗑️ Image cache cleared"] ;;
        postMessage {| action := "cacheCleared"; count := None |})
   else resolve tt) ;;
  (if hasAction data "getCacheStats" then
     detach
       (cache <- cachesOpen CACHE_NAME ;;
        detach
          (keys <- cacheKeys cache ;;
           postMessage {| action := "cacheStats";
                          count := Some (List.length keys) |}))
   else resolve tt).

(** ** Facts about the string operations *)

Arguments startsWith : simpl never.

Lemma startsWith_spec (s p : string) :
  startsWith s p = true <-> exists rest, s = p ++ rest.
Proof.
  unfold startsWith. revert s.
  induction p as [|c p IH]; intros [|d s]; simpl.
  - split; [intros _; now exists "" | reflexivity].
  - split; [intros _; now exists (String d s) | reflexivity].
  - split; [discriminate | intros [rest H]; discriminate].
  - destruct (ascii_dec c d) as [->|Hcd].
    + rewrite IH. split; intros [rest H]; exists rest.
      * now rewrite H.
      * now injection H.
    + split; [discriminate | intros [rest H]; injection H; congruence].
Qed.

Lemma includes_spec (s sub : string) :
  includes s sub = true <-> Substring sub s.
Proof.
  unfold Substring. induction s as [|c s IH]; simpl.
  - rewrite orb_false_r, startsWith_spec. split.
    + intros [rest H]. now exists "", rest.
    + intros [[|d before] [after H]]; [now exists after | discriminate].
  - rewrite orb_true_iff, startsWith_spec, IH. split.
    + intros [[rest H]|[before [after H]]].
      * now exists "", rest.
      * exists (String c before), after. simpl. now rewrite H.
    + intros [[|d before] [after H]].
      * left. now exists after.
      * right. exists before, after. simpl in H. now injection H.
Qed.

Lemma includes_some_spec (s : string) (subs : list string) :
  existsb (fun sub => includes s sub) subs = true <->
  exists sub, In sub subs /\ Substring sub s.
Proof.
  rewrite existsb_exists.
  split; intros [sub [Hin H]]; exists sub; split; trivial;
    now apply includes_spec.
Qed.

Lemma CACHE_NAME_has_prefix : startsWith CACHE_NAME "yaki-image-cache-" = true.
Proof. reflexivity. Qed.

Lemma isOldGeneration_false_iff (name : string) :
  isOldGeneration name = false <->
  ~ (startsWith name "yaki-image-cache-" = true /\ name <> CACHE_NAME).
Proof.
  unfold isOldGeneration.
  destruct (startsWith name "yaki-image-cache-"); simpl.
  - destruct (String.eqb_spec name CACHE_NAME) as [->|Hne]; simpl.
    + split; [intros _ [_ H]; now apply H | reflexivity].
    + split; [discriminate | intros H; exfalso; apply H; now split].
  - split; [intros _ [H _]; discriminate | reflexivity].
Qed.

(** ** Facts about the cache storage *)

Lemma storageMatch_found (cs : CacheStorage) (key : string) (r : Response) :
  storageMatch cs key = Some r ->
  exists name c, In (name, c) cs /\ cacheMatch c key = Some r.
Proof.
  induction cs as [|[n c] cs IH]; simpl; [discriminate|].
  destruct (cacheMatch c key) as [r'|] eqn:Hc.
  - intros H. injection H as <-. exists n, c. auto.
  - intros H. destruct (IH H) as [name [c' [Hin Hm]]].
    exists name, c'. auto.
Qed.

Lemma storageMatch_finds (cs : CacheStorage) (key : string) :
  (exists name c r, In (name, c) cs /\ cacheMatch c key = Some r) ->
  exists cached, storageMatch cs key = Some cached.
Proof.
  induction cs as [|[n c] cs IH]; simpl.
  - intros [name [c [r [[] _]]]].
  - intros [name [c' [r [[Heq|Hin] Hm]]]].
    + injection Heq as -> ->. rewrite Hm. now exists r.
    + destruct (cacheMatch c key) as [r'|]; [now exists r'|].
      apply IH. now exists name, c', r.
Qed.

Lemma storageLookup_fresh (cs : CacheStorage) (name : string) :
  storageHas cs name = false ->
  storageLookup (cs ++ [(name, [])])%list name = Some [].
Proof.
  unfold storageHas, storageKeys.
  induction cs as [|[n c] cs IH]; simpl.
  - now rewrite String.eqb_refl.
  - intros H. apply orb_false_iff in H as [-> H]. now apply IH.
Qed.

Lemma filter_twice {A : Type} (p q : A -> bool) (l : list A) :
  filter q (filter p l) = filter (fun a => p a && q a) l.
Proof.
  induction l as [|a l IH]; simpl; trivial.
  destruct (p a); simpl; [destruct (q a)|]; now rewrite IH.
Qed.

Lemma deleteAll_filter (names : list string) (cs : CacheStorage) :
  fold_left storageDelete names cs =
  filter (fun entry => negb (existsb (String.eqb (fst entry)) names)) cs.
Proof.
  revert cs. induction names as [|n names IH]; intros cs; simpl.
  - symmetry. apply forallb_filter_id. now apply forallb_forall.
  - rewrite IH. unfold storageDelete. rewrite filter_twice.
    apply filter_ext. intros entry. now rewrite negb_orb.
Qed.

Lemma existsb_eqb_filter (p : string -> bool) (n : string) (l : list string) :
  In n l -> existsb (String.eqb n) (filter p l) = p n.
Proof.
  intros Hin. destruct (p n) eqn:Hp.
  - apply existsb_exists. exists n. split.
    + now apply filter_In.
    + apply String.eqb_refl.
  - destruct (existsb (String.eqb n) (filter p l)) eqn:He; trivial.
    apply existsb_exists in He as [m [Hm Heq]].
    apply String.eqb_eq in Heq as <-.
    apply filter_In in Hm as [_ Hm]. congruence.
Qed.

Lemma storageLookup_filter (keep : string -> bool) (cs : CacheStorage)
  (name : string) :
  keep name = true ->
  storageLookup (filter (fun entry => keep (fst entry)) cs) name =
  storageLookup cs name.
Proof.
  intros Hk. induction cs as [|[n c] cs IH]; simpl; trivial.
  destruct (String.eqb_spec n name) as [->|Hne].
  - rewrite Hk. simpl. now rewrite String.eqb_refl.
  - destruct (keep n); simpl; trivial.
    destruct (String.eqb_spec n name); [contradiction | trivial].
Qed.

Lemma storageKeys_filter (keep : string -> bool) (cs : CacheStorage) :
  storageKeys (filter (fun entry => keep (fst entry)) cs) =
  filter keep (storageKeys cs).
Proof.
  unfold storageKeys. induction cs as [|[n c] cs IH]; simpl; trivial.
  destruct (keep n); simpl; now rewrite IH.
Qed.

Lemma NoDup_constant_short (x : string) (l : list string) :
  NoDup l -> (forall y, In y l -> y = x) -> (List.length l <= 1)%nat.
Proof.
  intros Hnd Hall.
  destruct l as [|a [|b l]]; simpl; try lia.
  exfalso. inversion Hnd as [|? ? Hnotin _]; subst. apply Hnotin.
  rewrite (Hall a), (Hall b); simpl; auto.
Qed.

(** ** The activation step *)

Lemma promiseAll_deletes (names : list string) (w : World) :
  exists deleted,
    promiseAll (map deleteOldCache names) w =
    (Fulfilled deleted,
     mkWorld (fold_left storageDelete names (caches w))
             (console w ++
              map (fun name =>
                     ConsoleLog [Str "[SW] Deleting old cache:"; Str name])
                  names)%list
             (fetched w) (posted w) (unhandled w) (claimed w)).
Proof.
  revert w. induction names as [|n names IH]; intros w.
  - exists []. simpl. unfold resolve. rewrite app_nil_r. now destruct w.
  - cbn [map promiseAll].
    unfold deleteOldCache at 1, andThen, consoleLog, cachesDelete.
    match goal with
    | |- context [promiseAll _ ?w1] => destruct (IH w1) as [deleted ->]
    end.
    eexists. cbn. now rewrite <- app_assoc.
Qed.

Lemma onActivate_caches (w : World) :
  caches (snd (onActivate w)) =
  filter (fun entry => negb (isOldGeneration (fst entry))) (caches w).
Proof.
  unfold onActivate, andThen, consoleLog, cachesKeys, clientsClaim.
  match goal with
  | |- context [promiseAll (map deleteOldCache ?l) ?w1] =>
      destruct (promiseAll_deletes l w1) as [deleted ->]
  end.
  cbn. rewrite deleteAll_filter.
  apply filter_ext_in. intros [n c] Hin. cbn [fst]. f_equal.
  apply existsb_eqb_filter.
  unfold storageKeys. now apply (in_map fst) in Hin.
Qed.

(** C7. Activation deletes exactly the stores whose name starts with the
    prefix [yaki-image-cache-] and is not the current name: a name is in the
    storage afterwards if and only if it was there before and is not such a
    name; the cache under every other name is what it was, the one under the
    current name among them; every surviving store whose name has the prefix
    is the current generation; and, the names of the storage being distinct,
    at most one store with the prefix survives. *)
Theorem activate_prunes_old_generations (w : World) :
  let before := caches w in
  let after := caches (snd (onActivate w)) in
  let hasPrefix := fun name => startsWith name "yaki-image-cache-" in
  (forall name,
      In name (storageKeys after) <->
      In name (storageKeys before) /\
      ~ (hasPrefix name = true /\ name <> CACHE_NAME))
  /\ (forall name,
         ~ (hasPrefix name = true /\ name <> CACHE_NAME) ->
         storageLookup after name = storageLookup before name)
  /\ storageLookup after CACHE_NAME = storageLookup before CACHE_NAME
  /\ (forall name,
         In name (storageKeys after) -> hasPrefix name = true ->
         name = CACHE_NAME)
  /\ (NoDup (storageKeys before) ->
      (List.length (filter hasPrefix (storageKeys after)) <= 1)%nat).
Proof.
  intros before after hasPrefix.
  assert (Hafter : after =
            filter (fun entry => negb (isOldGeneration (fst entry))) before)
    by apply onActivate_caches.
  assert (Hkeys : storageKeys after =
            filter (fun name => negb (isOldGeneration name))
                   (storageKeys before))
    by (rewrite Hafter;
        apply (storageKeys_filter (fun name => negb (isOldGeneration name)))).
  assert (Hin : forall name,
             In name (storageKeys after) <->
             In name (storageKeys before) /\
             ~ (hasPrefix name = true /\ name <> CACHE_NAME)).
  { intros name. rewrite Hkeys, filter_In, negb_true_iff.
    now rewrite isOldGeneration_false_iff. }
  assert (Hkeep : forall name,
             ~ (hasPrefix name = true /\ name <> CACHE_NAME) ->
             storageLookup after name = storageLookup before name).
  { intros name Hname. rewrite Hafter.
    apply (storageLookup_filter (fun name => negb (isOldGeneration name))).
    apply negb_true_iff. now apply isOldGeneration_false_iff. }
  assert (Hone : forall name,
             In name (storageKeys after) -> hasPrefix name = true ->
             name = CACHE_NAME).
  { intros name Hname Hp. apply Hin in Hname as [_ Hname].
    destruct (string_dec name CACHE_NAME) as [|Hne]; trivial.
    exfalso. apply Hname. now split. }
  repeat split; try apply Hin; trivial.
  - apply Hkeep. intros [_ H]. now apply H.
  - intros Hnd. apply (NoDup_constant_short CACHE_NAME).
    + apply NoDup_filter. rewrite Hkeys. now apply NoDup_filter.
    + intros name Hname. apply filter_In in Hname as [Hname Hp]. now apply Hone.
Qed.

(** ** The classifier *)

Lemma isImageRequest_parsed (request : Request) (u : URL) :
  parseURL (url request) = Some u ->
  isImageRequest request =
  Ok ((destination request =? "image")
      || existsb (fun ext => includes (toLowerCase (pathname u)) ext)
                 imageExtensions).
Proof.
  unfold isImageRequest. intros ->.
  now destruct (destination request =? "image").
Qed.

(** C2. On a request whose URL parses to [u] (the platform gives a Request
    no other URL), [isImageRequest] returns a boolean, and the boolean is
    [true] if and only if the destination is ["image"] or the lower-cased
    path of [u] contains, at any position, one of the eight extensions
    .jpg, .jpeg, .png, .gif, .webp, .svg, .ico, .bmp. *)
Theorem isImageRequest_true_iff (request : Request) (u : URL) :
  parseURL (url request) = Some u ->
  (exists b, isImageRequest request = Ok b) /\
  (isImageRequest request = Ok true <->
   destination request = "image" \/
   exists ext,
     In ext [".jpg"; ".jpeg"; ".png"; ".gif"; ".webp"; ".svg"; ".ico"; ".bmp"]
     /\ Substring ext (toLowerCase (pathname u))).
Proof.
  intros Hparse. rewrite (isImageRequest_parsed request u Hparse).
  split; [eexists; reflexivity|].
  rewrite <- String.eqb_eq.
  rewrite <- (includes_some_spec (toLowerCase (pathname u))).
  fold imageExtensions. rewrite <- orb_true_iff.
  split; [now intros [=] | now intros ->].
Qed.

(** C3. [isAllowedDomain] returns [false] on a string that does not parse;
    [true] when the parsed origin is the worker's own; and otherwise [true]
    if and only if the parsed hostname contains one of the strings of
    [ALLOWED_IMAGE_DOMAINS]. *)
Theorem isAllowedDomain_spec (urlString : string) :
  (parseURL urlString = None -> isAllowedDomain urlString = false)
  /\ (forall u,
         parseURL urlString = Some u -> origin u = selfOrigin ->
         isAllowedDomain urlString = true)
  /\ (forall u,
         parseURL urlString = Some u -> origin u <> selfOrigin ->
         (isAllowedDomain urlString = true <->
          exists domain,
            In domain ALLOWED_IMAGE_DOMAINS /\ Substring domain (hostname u))).
Proof.
  unfold isAllowedDomain. split; [|split].
  - now intros ->.
  - intros u -> <-. now rewrite String.eqb_refl.
  - intros u -> Hne.
    destruct (String.eqb_spec (origin u) selfOrigin); [contradiction|].
    apply includes_some_spec.
Qed.

(** C9, as the code has it. On a request whose URL parses, [isImageRequest]
    returns a boolean and throws nothing, and classifying leaves the world
    as it was: when the answer is [false] the listener returns with the
    world unchanged. On a request whose URL does not parse, the exception of
    the URL constructor leaves [isImageRequest] and the listener. *)
Theorem isImageRequest_returns_when_parsed (request : Request) :
  (forall u,
      parseURL (url request) = Some u ->
      (exists b, isImageRequest request = Ok b)
      /\ (forall w,
             isImageRequest request = Ok false ->
             onFetch request w = (NotIntercepted, w)))
  /\ (parseURL (url request) = None ->
      isImageRequest request = Throw invalidURL
      /\ (forall w,
             method request = "GET" ->
             onFetch request w = (ListenerThrew invalidURL, w))).
Proof.
  split.
  - intros u Hu. split.
    + rewrite (isImageRequest_parsed request u Hu). now eexists.
    + intros w Hfalse. unfold onFetch. rewrite Hfalse.
      now destruct (negb (method request =? "GET")).
  - intros Hnone.
    assert (Hthrow : isImageRequest request = Throw invalidURL)
      by (unfold isImageRequest; now rewrite Hnone).
    split; trivial.
    intros w Hget. unfold onFetch. now rewrite Hget, Hthrow.
Qed.

(** ** The fetch listener *)

Lemma onFetch_intercepted (request : Request) (w : World) :
  method request = "GET" ->
  isImageRequest request = Ok true ->
  onFetch request w =
  (RespondedWith (fst (respondCacheFirst request w)),
   snd (respondCacheFirst request w)).
Proof.
  intros Hget Himg. unfold onFetch. rewrite Hget, Himg. simpl.
  now destruct (respondCacheFirst request w).
Qed.

(** What the handler does on a miss, by what the network answers. *)
Ltac run_miss Hmiss Hnet :=
  unfold respondCacheFirst, andThen, orCatch, cachesMatch, fetch;
  rewrite Hmiss, Hnet; cbn [fst snd].

(** C4. When some cache of the storage holds an entry under the key of an
    intercepted GET image request, the handler answers with a stored
    response, the one of the first cache in creation order that holds the
    key, as it is stored; it issues no network request and leaves the
    storage as it was. *)
Theorem cache_hit_served_from_cache (request : Request) (w : World) :
  method request = "GET" ->
  isImageRequest request = Ok true ->
  (exists name c stored,
      In (name, c) (caches w) /\ cacheMatch c (keyOf request) = Some stored) ->
  exists cached w',
    storageMatch (caches w) (keyOf request) = Some cached
    /\ (exists name c,
           In (name, c) (caches w)
           /\ cacheMatch c (keyOf request) = Some cached)
    /\ onFetch request w = (RespondedWith (Fulfilled (Some cached)), w')
    /\ fetched w' = fetched w
    /\ caches w' = caches w
    /\ unhandled w' = unhandled w.
Proof.
  intros Hget Himg Hheld.
  destruct (storageMatch_finds _ _ Hheld) as [cached Hhit].
  exists cached.
  exists (addConsole
            (ConsoleLog [Str "[SW] 📦 From cache:"; Str (shortURL request)]) w).
  split; trivial. split; [now apply storageMatch_found|].
  split; [|now repeat split].
  rewrite (onFetch_intercepted request w Hget Himg).
  unfold respondCacheFirst, andThen, cachesMatch. now rewrite Hhit.
Qed.

(** C1. An intercepted GET image request that misses the cache, whose fetch
    resolves with status 200, and whose URL is neither accepted by
    [isAllowedDomain] nor starts with the worker's origin: the response is
    handed to the requester and the storage is left as it was (the only
    change to the world is the network request). *)
Theorem untrusted_response_not_cached (request : Request) (response : Response)
  (w : World) :
  method request = "GET" ->
  isImageRequest request = Ok true ->
  storageMatch (caches w) (keyOf request) = None ->
  network request = NetResolves (Some response) ->
  status response = 200%N ->
  isAllowedDomain (url request) = false ->
  startsWith (url request) selfOrigin = false ->
  onFetch request w =
  (RespondedWith (Fulfilled (Some response)), addFetched request w)
  /\ caches (addFetched request w) = caches w.
Proof.
  intros Hget Himg Hmiss Hnet Hst Hdom Hown. split; [|reflexivity].
  rewrite (onFetch_intercepted request w Hget Himg).
  run_miss Hmiss Hnet. now rewrite Hst, Hdom, Hown.
Qed.

(** C5. An intercepted GET image request that misses the cache and whose
    fetch rejects: the handler's promise is fulfilled, with a synthetic
    response of status 404 and empty body; no rejection is left unhandled
    and the storage is as it was. *)
Theorem fetch_failure_gives_404 (request : Request) (e : Error) (w : World) :
  method request = "GET" ->
  isImageRequest request = Ok true ->
  storageMatch (caches w) (keyOf request) = None ->
  network request = NetRejects e ->
  exists synthetic w',
    onFetch request w = (RespondedWith (Fulfilled (Some synthetic)), w')
    /\ status synthetic = 404%N
    /\ body synthetic = ""
    /\ unhandled w' = unhandled w
    /\ caches w' = caches w
    /\ console w' =
       (console w ++ [ConsoleError [Str "[SW] Fetch failed:"; Err e]])%list.
Proof.
  intros Hget Himg Hmiss Hnet.
  exists (emptyResponse 404), (addConsole
            (ConsoleError [Str "[SW] Fetch failed:"; Err e])
            (addFetched request w)).
  split; [|now repeat split].
  rewrite (onFetch_intercepted request w Hget Himg).
  now run_miss Hmiss Hnet.
Qed.

(** C6. An intercepted GET image request that misses the cache and whose
    fetch resolves with no response or with a status other than 200: the
    handler answers with exactly what the fetch resolved to, and the storage
    is left as it was. *)
Theorem non_200_passed_through (request : Request) (r : option Response)
  (w : World) :
  method request = "GET" ->
  isImageRequest request = Ok true ->
  storageMatch (caches w) (keyOf request) = None ->
  network request = NetResolves r ->
  (r = None \/ exists response, r = Some response /\ status response <> 200%N) ->
  onFetch request w = (RespondedWith (Fulfilled r), addFetched request w)
  /\ caches (addFetched request w) = caches w.
Proof.
  intros Hget Himg Hmiss Hnet Hr. split; [|reflexivity].
  rewrite (onFetch_intercepted request w Hget Himg).
  run_miss Hmiss Hnet.
  destruct Hr as [->|[response [-> Hst]]]; trivial.
  apply N.eqb_neq in Hst. now rewrite Hst.
Qed.

(** C8, as the code has it. In a network-fill (miss, status 200, trusted
    URL) whose write to the cache fails with [e]: the requester gets the
    network response, in a fulfilled promise; the rejection of the write is
    dropped, left without a handler; and the worker logs nothing about it:
    its console gains the one line that a successful write gives, which
    reports no error. The only trace in the storage is the opened
    generation. *)
Theorem write_failure_discarded (request : Request) (response : Response)
  (e : Error) (w : World) :
  method request = "GET" ->
  isImageRequest request = Ok true ->
  storageMatch (caches w) (keyOf request) = None ->
  network request = NetResolves (Some response) ->
  status response = 200%N ->
  isAllowedDomain (url request) || startsWith (url request) selfOrigin = true ->
  putFailure request response = Some e ->
  let cached := ConsoleLog [Str "[SW] 💾 Cached:"; Str (shortURL request)] in
  onFetch request w =
  (RespondedWith (Fulfilled (Some response)),
   mkWorld (storageOpen (caches w) CACHE_NAME)
           (console w ++ [cached])%list
           (fetched w ++ [request])%list
           (posted w)
           (unhandled w ++ [e])%list
           (claimed w))
  /\ reportsError cached = false.
Proof.
  intros Hget Himg Hmiss Hnet Hst Htrust Hput cached. split; [|reflexivity].
  rewrite (onFetch_intercepted request w Hget Himg).
  run_miss Hmiss Hnet. rewrite Hst, Htrust. cbn.
  unfold detach, andThen, cachesOpen, cachePutRequest, clone.
  now rewrite Hput.
Qed.

(** ** The message listener *)

(** C10. A [getCacheStats] message that arrives when the storage has no
    cache under the current name: the handler posts
    [{action: "cacheStats", count: 0}] back and the storage gains the
    current generation, empty; nothing else changes. *)
Theorem stats_on_missing_generation (data : ControlMessage) (w : World) :
  action data = "getCacheStats" ->
  storageHas (caches w) CACHE_NAME = false ->
  onMessage (Some data) w =
  (Fulfilled tt,
   mkWorld (caches w ++ [(CACHE_NAME, [])])%list
           (console w)
           (fetched w)
           (posted w ++ [{| action := "cacheStats"; count := Some 0 |}])%list
           (unhandled w)
           (claimed w))
  /\ storageLookup (caches w ++ [(CACHE_NAME, [])])%list CACHE_NAME = Some [].
Proof.
  intros Hact Hnone. split; [|now apply storageLookup_fresh].
  unfold onMessage, hasAction. rewrite Hact.
  change ("getCacheStats" =? "clearImageCache") with false.
  change ("getCacheStats" =? "getCacheStats") with true.
  unfold andThen, resolve, detach, cachesOpen, cacheKeys, postMessage.
  cbn [caches setCaches]. unfold storageOpen, storageCacheKeys.
  rewrite Hnone, (storageLookup_fresh _ _ Hnone). now destruct w.
Qed.

(** ** More about the cache storage *)

Lemma cacheMatch_cachePut (c : Cache) (key : string) (r : Response) :
  cacheMatch (cachePut c key r) key = Some r.
Proof.
  unfold cachePut. induction c as [|[k x] c IH]; simpl.
  - now rewrite String.eqb_refl.
  - destruct (k =? key) eqn:E; simpl; [|rewrite E]; exact IH.
Qed.

Lemma cachePut_fresh (c : Cache) (key : string) (r : Response) :
  cacheMatch c key = None -> cachePut c key r = (c ++ [(key, r)])%list.
Proof.
  unfold cachePut. intros H. f_equal.
  induction c as [|[k x] c IH]; simpl in *; trivial.
  destruct (k =? key); [discriminate|]. simpl. f_equal. now apply IH.
Qed.

Lemma storageHas_lookup (cs : CacheStorage) (name : string) :
  storageHas cs name =
  match storageLookup cs name with Some _ => true | None => false end.
Proof.
  unfold storageHas, storageKeys.
  induction cs as [|[n c] cs IH]; simpl; trivial.
  now destruct (n =? name).
Qed.

Lemma storageHas_storageOpen (cs : CacheStorage) (name : string) :
  storageHas (storageOpen cs name) name = true.
Proof.
  unfold storageOpen. destruct (storageHas cs name) eqn:E; trivial.
  unfold storageHas, storageKeys. rewrite map_app, existsb_app. simpl.
  now rewrite String.eqb_refl, orb_true_r.
Qed.

Lemma storageOpen_present (cs : CacheStorage) (name : string) :
  storageHas cs name = true -> storageOpen cs name = cs.
Proof. unfold storageOpen. now intros ->. Qed.

Lemma storageMatch_storageOpen (cs : CacheStorage) (name key : string) :
  storageMatch (storageOpen cs name) key = storageMatch cs key.
Proof.
  unfold storageOpen. destruct (storageHas cs name); trivial.
  induction cs as [|[n c] cs IH]; simpl; trivial.
  now destruct (cacheMatch c key).
Qed.

Lemma storageMatch_storagePut (cs : CacheStorage) (name key : string)
  (r : Response) :
  storageMatch cs key = None ->
  storageHas cs name = true ->
  storageMatch (storagePut cs name key r) key = Some r.
Proof.
  unfold storageHas, storageKeys.
  induction cs as [|[n c] cs IH]; simpl; [discriminate|].
  destruct (cacheMatch c key) eqn:Hc; [discriminate|]. intros Hmiss Hhas.
  destruct (n =? name) eqn:E; simpl.
  - now rewrite cacheMatch_cachePut.
  - rewrite Hc. now apply IH.
Qed.

Lemma storageMatch_none_lookup (cs : CacheStorage) (name key : string)
  (c : Cache) :
  storageMatch cs key = None ->
  storageLookup cs name = Some c ->
  cacheMatch c key = None.
Proof.
  induction cs as [|[n c'] cs IH]; simpl; [discriminate|].
  destruct (cacheMatch c' key) eqn:Hc; [discriminate|]. intros Hmiss.
  destruct (n =? name); [now intros [= <-] | now apply IH].
Qed.

Lemma storageLookup_storageOpen_same (cs : CacheStorage) (name : string) :
  storageLookup (storageOpen cs name) name =
  Some match storageLookup cs name with Some c => c | None => [] end.
Proof.
  unfold storageOpen. destruct (storageHas cs name) eqn:E.
  - rewrite storageHas_lookup in E. now destruct (storageLookup cs name).
  - rewrite (storageLookup_fresh _ _ E).
    rewrite storageHas_lookup in E.
    now destruct (storageLookup cs name).
Qed.

Lemma storageLookup_storageOpen_other (cs : CacheStorage) (name other : string) :
  other <> name ->
  storageLookup (storageOpen cs name) other = storageLookup cs other.
Proof.
  intros Hne. unfold storageOpen. destruct (storageHas cs name); trivial.
  induction cs as [|[n c] cs IH]; simpl.
  - destruct (String.eqb_spec name other); [congruence | trivial].
  - now destruct (n =? other).
Qed.

Lemma storageLookup_storagePut_same (cs : CacheStorage) (name key : string)
  (r : Response) :
  storageLookup (storagePut cs name key r) name =
  option_map (fun c => cachePut c key r) (storageLookup cs name).
Proof.
  induction cs as [|[n c] cs IH]; simpl; trivial.
  destruct (n =? name) eqn:E; simpl; now rewrite E.
Qed.

Lemma storageLookup_storagePut_other (cs : CacheStorage)
  (name other key : string) (r : Response) :
  other <> name ->
  storageLookup (storagePut cs name key r) other = storageLookup cs other.
Proof.
  intros Hne. induction cs as [|[n c] cs IH]; simpl; trivial.
  destruct (String.eqb_spec n name) as [->|Hn]; simpl.
  - destruct (String.eqb_spec name other); [congruence | trivial].
  - now destruct (n =? other).
Qed.

Lemma storageKeys_storagePut (cs : CacheStorage) (name key : string)
  (r : Response) :
  storageKeys (storagePut cs name key r) = storageKeys cs.
Proof.
  unfold storageKeys, storagePut. rewrite map_map. apply map_ext.
  intros [n c]. simpl. now destruct (n =? name).
Qed.

Lemma storageKeys_storageOpen (cs : CacheStorage) (name other : string) :
  In other (storageKeys cs) -> In other (storageKeys (storageOpen cs name)).
Proof.
  unfold storageOpen, storageKeys. destruct (storageHas cs name); trivial.
  rewrite map_app, in_app_iff. now left.
Qed.

Lemma storageHas_storageDelete (cs : CacheStorage) (name : string) :
  storageHas (storageDelete cs name) name = false.
Proof.
  unfold storageHas, storageKeys, storageDelete.
  induction cs as [|[n c] cs IH]; simpl; trivial.
  destruct (n =? name) eqn:E; simpl; trivial. now rewrite E.
Qed.

Lemma storageLookup_storageDelete_other (cs : CacheStorage)
  (name other : string) :
  other <> name ->
  storageLookup (storageDelete cs name) other = storageLookup cs other.
Proof.
  intros Hne. unfold storageDelete.
  induction cs as [|[n c] cs IH]; simpl; trivial.
  destruct (String.eqb_spec n name) as [->|Hn]; simpl.
  - destruct (String.eqb_spec name other); [congruence | trivial].
  - now destruct (n =? other).
Qed.

Lemma substring0_length (n : nat) (s : string) :
  String.length (substring0 n s) = Nat.min n (String.length s).
Proof.
  unfold substring0. revert n.
  induction s as [|c s IH]; intros [|n]; simpl; trivial.
  now rewrite IH.
Qed.

Lemma substring0_prefix (n : nat) (s : string) :
  exists rest, s = substring0 n s ++ rest.
Proof.
  unfold substring0. revert n.
  induction s as [|c s IH]; intros [|n]; simpl.
  - now exists "".
  - now exists "".
  - now exists (String c s).
  - destruct (IH n) as [rest H]. exists rest. now rewrite <- H.
Qed.

Lemma append_length (a b : string) :
  String.length (a ++ b) = String.length a + String.length b.
Proof. induction a as [|c a IH]; simpl; [trivial | now rewrite IH]. Qed.

(** ** The fetch listener on every path *)

(** Every way through the listener, one goal for each. *)
Ltac fetch_paths request w :=
  unfold onFetch;
  destruct (String.eqb_spec (method request) "GET") as [Hget|Hget];
    cbn [negb];
    [destruct (isImageRequest request) as [[|]|thrown] eqn:Himg;
     [unfold respondCacheFirst, andThen, orCatch, cachesMatch, fetch;
      destruct (storageMatch (caches w) (keyOf request)) as [cached|] eqn:Hhit;
      [|destruct (network request) as [[response|]|failure] eqn:Hnet;
        [destruct (status response =? 200)%N eqn:Hst; cbn [negb];
         [destruct (isAllowedDomain (url request)
                    || startsWith (url request) selfOrigin) eqn:Htrust;
          [unfold detach, andThen, cachesOpen, cachePutRequest;
           destruct (putFailure request (clone response)) as [refused|]
             eqn:Hput|]|]| |]]| |]|];
  cbn [fst snd resolve consoleLog consoleError caches fetched posted
       unhandled claimed console addConsole addFetched addUnhandled setCaches].

Lemma onFetch_fill (request : Request) (response : Response) (w : World) :
  method request = "GET" ->
  isImageRequest request = Ok true ->
  storageMatch (caches w) (keyOf request) = None ->
  network request = NetResolves (Some response) ->
  status response = 200%N ->
  isAllowedDomain (url request) || startsWith (url request) selfOrigin = true ->
  putFailure request response = None ->
  onFetch request w =
  (RespondedWith (Fulfilled (Some response)),
   mkWorld (storagePut (storageOpen (caches w) CACHE_NAME)
                       CACHE_NAME (keyOf request) response)
           (console w ++
            [ConsoleLog [Str "[SW] 💾 Cached:"; Str (shortURL request)]])%list
           (fetched w ++ [request])%list (posted w) (unhandled w)
           (claimed w)).
Proof.
  intros Hget Himg Hmiss Hnet Hst Htrust Hput.
  rewrite (onFetch_intercepted request w Hget Himg).
  run_miss Hmiss Hnet. rewrite Hst, Htrust. cbn.
  unfold detach, andThen, cachesOpen, cachePutRequest, clone.
  now rewrite Hput.
Qed.

(** X1. A network-fill whose write succeeds files the response: after it
    the storage answers the request's key with that response, from the
    current generation; one network request was made; and every later
    intercepted request with that key is answered with the response from the
    cache, with no network request and no change to the storage. *)
Theorem fill_then_hit (request : Request) (response : Response) (w : World) :
  method request = "GET" ->
  isImageRequest request = Ok true ->
  storageMatch (caches w) (keyOf request) = None ->
  network request = NetResolves (Some response) ->
  status response = 200%N ->
  isAllowedDomain (url request) || startsWith (url request) selfOrigin = true ->
  putFailure request response = None ->
  let w1 := snd (onFetch request w) in
  fst (onFetch request w) = RespondedWith (Fulfilled (Some response))
  /\ storageMatch (caches w1) (keyOf request) = Some response
  /\ (exists c,
         storageLookup (caches w1) CACHE_NAME = Some c
         /\ cacheMatch c (keyOf request) = Some response)
  /\ fetched w1 = (fetched w ++ [request])%list
  /\ unhandled w1 = unhandled w
  /\ (forall again,
         method again = "GET" ->
         isImageRequest again = Ok true ->
         keyOf again = keyOf request ->
         exists w2,
           onFetch again w1 = (RespondedWith (Fulfilled (Some response)), w2)
           /\ fetched w2 = fetched w1
           /\ caches w2 = caches w1).
Proof.
  intros Hget Himg Hmiss Hnet Hst Htrust Hput w1.
  pose proof (onFetch_fill request response w Hget Himg Hmiss Hnet Hst Htrust
                Hput) as Hrun.
  assert (Hstored : storageMatch (caches w1) (keyOf request) = Some response).
  { unfold w1. rewrite Hrun. cbn [snd caches].
    apply storageMatch_storagePut.
    - now rewrite storageMatch_storageOpen.
    - apply storageHas_storageOpen. }
  split; [now rewrite Hrun|]. split; [exact Hstored|]. split.
  { unfold w1. rewrite Hrun. cbn [snd caches].
    rewrite storageLookup_storagePut_same, storageLookup_storageOpen_same.
    eexists. split; [reflexivity|]. apply cacheMatch_cachePut. }
  split; [unfold w1; now rewrite Hrun|].
  split; [unfold w1; now rewrite Hrun|].
  intros again Hget' Himg' Hkey.
  exists (addConsole
            (ConsoleLog [Str "[SW] 📦 From cache:"; Str (shortURL again)]) w1).
  split; [|split; reflexivity].
  rewrite (onFetch_intercepted again w1 Hget' Himg').
  unfold respondCacheFirst, andThen, cachesMatch. now rewrite Hkey, Hstored.
Qed.

(** X2. Whatever the request, the listener leaves every cache other than
    the current generation as it was and removes no cache from the storage;
    it posts no message. *)
Theorem onFetch_touches_current_generation_only (request : Request) (w : World) :
  let w' := snd (onFetch request w) in
  (forall name,
      name <> CACHE_NAME ->
      storageLookup (caches w') name = storageLookup (caches w) name)
  /\ (forall name,
         In name (storageKeys (caches w)) -> In name (storageKeys (caches w')))
  /\ posted w' = posted w.
Proof.
  assert (Hcases :
            caches (snd (onFetch request w)) = caches w
            \/ caches (snd (onFetch request w)) =
               storageOpen (caches w) CACHE_NAME
            \/ exists r,
                caches (snd (onFetch request w)) =
                storagePut (storageOpen (caches w) CACHE_NAME) CACHE_NAME
                           (keyOf request) r).
  { fetch_paths request w; auto. right. right. now eexists. }
  intros w'. split; [|split].
  - intros name Hne. unfold w'.
    destruct Hcases as [->|[->|[r ->]]]; trivial.
    + now apply storageLookup_storageOpen_other.
    + rewrite storageLookup_storagePut_other by trivial.
      now apply storageLookup_storageOpen_other.
  - intros name Hin. unfold w'.
    destruct Hcases as [->|[->|[r ->]]]; trivial.
    + now apply storageKeys_storageOpen.
    + rewrite storageKeys_storagePut. now apply storageKeys_storageOpen.
  - unfold w'. fetch_paths request w; reflexivity.
Qed.

(** X3. The listener answers the event exactly when the request is a GET
    that [isImageRequest] accepts. A request of another method, or one that
    [isImageRequest] turns down, is left to the platform with the world
    unchanged; a request of another method is not even classified. *)
Theorem onFetch_intercepts_iff (request : Request) (w : World) :
  ((exists r w', onFetch request w = (RespondedWith r, w')) <->
   method request = "GET" /\ isImageRequest request = Ok true)
  /\ (method request <> "GET" -> onFetch request w = (NotIntercepted, w))
  /\ (isImageRequest request = Ok false ->
      onFetch request w = (NotIntercepted, w)).
Proof.
  split; [split|split].
  - intros [r [w' H]]. revert H. unfold onFetch.
    destruct (String.eqb_spec (method request) "GET") as [Hget|Hget];
      cbn [negb]; [|discriminate].
    destruct (isImageRequest request) as [[|]|thrown]; try discriminate.
    now split.
  - intros [Hget Himg]. rewrite (onFetch_intercepted request w Hget Himg).
    now eexists; eexists.
  - intros Hne. unfold onFetch.
    destruct (String.eqb_spec (method request) "GET"); [contradiction|].
    reflexivity.
  - intros Himg. unfold onFetch. rewrite Himg.
    now destruct (negb (method request =? "GET")).
Qed.


(** X5. The listener makes at most one network request, for the request of
    the event itself, and makes it only for a GET that missed the cache:
    there is no second attempt on any path. *)
Theorem onFetch_fetches_at_most_once (request : Request) (w : World) :
  let w' := snd (onFetch request w) in
  fetched w' = fetched w
  \/ (fetched w' = (fetched w ++ [request])%list
      /\ method request = "GET"
      /\ isImageRequest request = Ok true
      /\ storageMatch (caches w) (keyOf request) = None).
Proof.
  intros w'. unfold w'. fetch_paths request w; auto.
Qed.


(** X16. The URL of a log line is the first 80 characters of the request's
    URL, the whole URL when it is shorter, followed by three dots. *)
Theorem shortURL_bounded (request : Request) :
  String.length (shortURL request) =
  Nat.min 80 (String.length (url request)) + 3
  /\ (exists shown rest,
         shortURL request = shown ++ "..." /\ url request = shown ++ rest)
  /\ (String.length (url request) <= 80 ->
      shortURL request = url request ++ "...").
Proof.
  unfold shortURL. split; [|split].
  - now rewrite append_length, substring0_length.
  - destruct (substring0_prefix 80 (url request)) as [rest H].
    now exists (substring0 80 (url request)), rest.
  - intros Hlen. f_equal.
    destruct (substring0_prefix 80 (url request)) as [rest H].
    assert (Hr : String.length rest = 0).
    { apply (f_equal String.length) in H.
      rewrite append_length, substring0_length in H. lia. }
    destruct rest; [|discriminate].
    rewrite H at 2. clear. induction (substring0 80 (url request)); simpl;
      [trivial | now rewrite <- IHs].
Qed.

(** ** The message listener on every message *)

Lemma onMessage_stats (data : ControlMessage) (w : World) :
  action data = "getCacheStats" ->
  onMessage (Some data) w =
  (Fulfilled tt,
   mkWorld (storageOpen (caches w) CACHE_NAME)
           (console w) (fetched w)
           (posted w ++
            [{| action := "cacheStats";
                count := Some (List.length
                                 (storageCacheKeys
                                    (storageOpen (caches w) CACHE_NAME)
                                    CACHE_NAME)) |}])%list
           (unhandled w) (claimed w)).
Proof.
  intros Hact. unfold onMessage, hasAction. rewrite Hact.
  change ("getCacheStats" =? "clearImageCache") with false.
  change ("getCacheStats" =? "getCacheStats") with true.
  reflexivity.
Qed.

Lemma onMessage_clear (data : ControlMessage) (w : World) :
  action data = "clearImageCache" ->
  onMessage (Some data) w =
  (Fulfilled tt,
   mkWorld (storageDelete (caches w) CACHE_NAME)
           (console w ++ [ConsoleLog [Str "[SW] 🗑️ Image cache cleared"]])%list
           (fetched w)
           (posted w ++ [{| action := "cacheCleared"; count := None |}])%list
           (unhandled w) (claimed w)).
Proof.
  intros Hact. unfold onMessage, hasAction. rewrite Hact.
  change ("clearImageCache" =? "clearImageCache") with true.
  change ("clearImageCache" =? "getCacheStats") with false.
  reflexivity.
Qed.

Lemma storageCacheKeys_storageOpen (cs : CacheStorage) (name : string) :
  storageCacheKeys (storageOpen cs name) name = storageCacheKeys cs name.
Proof.
  unfold storageCacheKeys. rewrite storageLookup_storageOpen_same.
  now destruct (storageLookup cs name).
Qed.

(** X8. A [clearImageCache] message removes the current generation and
    nothing else: afterwards the storage has no cache of the current name,
    every cache of another name is what it was, and exactly one
    [{action: "cacheCleared"}] has been posted, whether or not there was a
    generation to remove. *)
Theorem clear_removes_current_generation (data : ControlMessage) (w : World) :
  action data = "clearImageCache" ->
  let w' := snd (onMessage (Some data) w) in
  fst (onMessage (Some data) w) = Fulfilled tt
  /\ storageHas (caches w') CACHE_NAME = false
  /\ storageLookup (caches w') CACHE_NAME = None
  /\ (forall name,
         name <> CACHE_NAME ->
         storageLookup (caches w') name = storageLookup (caches w) name)
  /\ posted w' =
     (posted w ++ [{| action := "cacheCleared"; count := None |}])%list
  /\ fetched w' = fetched w
  /\ unhandled w' = unhandled w.
Proof.
  intros Hact w'. unfold w'. rewrite (onMessage_clear data w Hact).
  cbn [fst snd caches posted fetched unhandled].
  pose proof (storageHas_storageDelete (caches w) CACHE_NAME) as Hgone.
  repeat split; trivial.
  - rewrite storageHas_lookup in Hgone.
    now destruct (storageLookup (storageDelete (caches w) CACHE_NAME)
                                CACHE_NAME).
  - intros name Hne. now apply storageLookup_storageDelete_other.
Qed.

(** X9. A [getCacheStats] message that finds the current generation with
    the entries [c] posts [{action: "cacheStats", count: n}] with [n] the
    number of entries of [c], and changes nothing else. *)
Theorem stats_counts_entries (data : ControlMessage) (c : Cache) (w : World) :
  action data = "getCacheStats" ->
  storageLookup (caches w) CACHE_NAME = Some c ->
  onMessage (Some data) w =
  (Fulfilled tt,
   addPosted {| action := "cacheStats"; count := Some (List.length c) |} w).
Proof.
  intros Hact Hc. rewrite (onMessage_stats data w Hact).
  rewrite storageCacheKeys_storageOpen, storageOpen_present.
  - unfold storageCacheKeys. rewrite Hc, length_map. now destruct w.
  - rewrite storageHas_lookup. now rewrite Hc.
Qed.

(** X10. A message with no data, or with an action that is neither
    [clearImageCache] nor [getCacheStats], is ignored: nothing is posted,
    logged or changed. *)
Theorem unrecognised_message_ignored (data : option ControlMessage) (w : World) :
  (data = None
   \/ exists d,
       data = Some d
       /\ action d <> "clearImageCache"
       /\ action d <> "getCacheStats") ->
  onMessage data w = (Fulfilled tt, w).
Proof.
  intros [->|[d [-> [Hclear Hstats]]]]; [reflexivity|].
  unfold onMessage, hasAction.
  destruct (String.eqb_spec (action d) "clearImageCache"); [contradiction|].
  destruct (String.eqb_spec (action d) "getCacheStats"); [contradiction|].
  reflexivity.
Qed.

(** X11. Statistics asked right after a clear report an empty cache: the
    two replies are [{action: "cacheCleared"}] and then
    [{action: "cacheStats", count: 0}], and the storage ends with a current
    generation that is empty, whatever it held before. *)
Theorem clear_then_stats_is_zero (clear stats : ControlMessage) (w : World) :
  action clear = "clearImageCache" ->
  action stats = "getCacheStats" ->
  let w' := snd (onMessage (Some stats) (snd (onMessage (Some clear) w))) in
  posted w' =
  (posted w ++ [{| action := "cacheCleared"; count := None |};
                {| action := "cacheStats"; count := Some 0 |}])%list
  /\ storageLookup (caches w') CACHE_NAME = Some [].
Proof.
  intros Hclear Hstats w'. unfold w'.
  rewrite (onMessage_clear clear w Hclear). cbn [snd].
  rewrite (onMessage_stats stats _ Hstats).
  cbn [snd posted caches].
  pose proof (storageHas_storageDelete (caches w) CACHE_NAME) as Hgone.
  rewrite storageCacheKeys_storageOpen. unfold storageCacheKeys.
  rewrite storageLookup_storageOpen_same.
  rewrite storageHas_lookup in Hgone.
  destruct (storageLookup (storageDelete (caches w) CACHE_NAME) CACHE_NAME);
    [discriminate|].
  split; [|reflexivity]. now rewrite <- app_assoc.
Qed.


(** X15. Statistics asked after a network-fill whose write succeeded count
    the new entry: the count posted is one more than the number of entries
    the current generation had before the request (none when it did not
    exist). *)
Theorem stats_after_fill (request : Request) (response : Response)
  (stats : ControlMessage) (w : World) :
  method request = "GET" ->
  isImageRequest request = Ok true ->
  storageMatch (caches w) (keyOf request) = None ->
  network request = NetResolves (Some response) ->
  status response = 200%N ->
  isAllowedDomain (url request) || startsWith (url request) selfOrigin = true ->
  putFailure request response = None ->
  action stats = "getCacheStats" ->
  posted (snd (onMessage (Some stats) (snd (onFetch request w)))) =
  (posted w ++
   [{| action := "cacheStats";
       count := Some (S (List.length
                           (storageCacheKeys (caches w) CACHE_NAME))) |}])%list.
Proof.
  intros Hget Himg Hmiss Hnet Hst Htrust Hput Hstats.
  rewrite (onFetch_fill request response w Hget Himg Hmiss Hnet Hst Htrust Hput).
  cbn [snd]. rewrite (onMessage_stats stats _ Hstats). cbn [snd posted caches].
  rewrite storageCacheKeys_storageOpen. unfold storageCacheKeys.
  rewrite storageLookup_storagePut_same, storageLookup_storageOpen_same.
  cbn [option_map].
  assert (Hfresh :
            cacheMatch
              match storageLookup (caches w) CACHE_NAME with
              | Some c => c
              | None => []
              end (keyOf request) = None).
  { destruct (storageLookup (caches w) CACHE_NAME) as [c|] eqn:Hc; trivial.
    exact (storageMatch_none_lookup _ _ _ _ Hmiss Hc). }
  rewrite (cachePut_fresh _ _ _ Hfresh).
  do 3 f_equal. rewrite map_app, length_app, !length_map. simpl.
  destruct (storageLookup (caches w) CACHE_NAME); simpl;
    rewrite ?length_map; f_equal; lia.
Qed.

(** ** Activation on every storage *)

Lemma onActivate_run (w : World) :
  onActivate w =
  (Fulfilled tt,
   mkWorld (filter (fun entry => negb (isOldGeneration (fst entry))) (caches w))
           (console w ++
            ConsoleLog [Str "[SW] Service Worker activated"]
            :: map (fun name =>
                      ConsoleLog [Str "[SW] Deleting old cache:"; Str name])
                   (filter isOldGeneration (storageKeys (caches w))))%list
           (fetched w) (posted w) (unhandled w) true).
Proof.
  pose proof (onActivate_caches w) as Hcaches. revert Hcaches.
  unfold onActivate, andThen, consoleLog, cachesKeys, clientsClaim.
  match goal with
  | |- context [promiseAll (map deleteOldCache ?l) ?w1] =>
      destruct (promiseAll_deletes l w1) as [deleted ->]
  end.
  cbn. intros ->. now rewrite <- app_assoc.
Qed.


(** X13. Activating again changes nothing more: a second activation finds
    no store to delete, leaves the storage as the first one left it and
    writes only the activation line. *)
Theorem activate_idempotent (w : World) :
  let w1 := snd (onActivate w) in
  let w2 := snd (onActivate w1) in
  caches w2 = caches w1
  /\ console w2 =
     (console w1 ++ [ConsoleLog [Str "[SW] Service Worker activated"]])%list
  /\ filter isOldGeneration (storageKeys (caches w1)) = [].
Proof.
  intros w1 w2.
  assert (Hnone : filter isOldGeneration (storageKeys (caches w1)) = []).
  { unfold w1. rewrite onActivate_run. cbn [snd caches].
    rewrite (storageKeys_filter (fun name => negb (isOldGeneration name))).
    rewrite filter_twice.
    induction (storageKeys (caches w)) as [|n l IH]; simpl; trivial.
    now destruct (isOldGeneration n). }
  unfold w2. rewrite (onActivate_run w1). cbn [snd caches console].
  rewrite Hnone. repeat split; trivial.
  unfold w1. rewrite onActivate_run. cbn [snd caches].
  rewrite filter_twice. apply filter_ext. intros entry.
  now destruct (isOldGeneration (fst entry)).
Qed.

End Worker.

(** X6. What the requester gets, what is fetched and what is logged do not
    depend on whether writes to the cache fail: two runs of the listener on
    the same request and world that differ only in which writes the storage
    refuses agree on all three. *)
Lemma response_independent_of_writes
  (parseURL : string -> option URL) (selfOrigin : string)
  (keyOf : Request -> string) (network : Request -> FetchOutcome)
  (putA putB : Request -> Response -> option Error)
  (request : Request) (w : World) :
  let runA := onFetch parseURL selfOrigin keyOf network putA request w in
  let runB := onFetch parseURL selfOrigin keyOf network putB request w in
  fst runA = fst runB
  /\ console (snd runA) = console (snd runB)
  /\ fetched (snd runA) = fetched (snd runB).
Proof.
  unfold onFetch.
  destruct (negb (method request =? "GET")); [now repeat split|].
  destruct (isImageRequest parseURL request) as [[|]|err];
    try now repeat split.
  unfold respondCacheFirst, andThen, orCatch, cachesMatch, fetch.
  destruct (storageMatch (caches w) (keyOf request)); [now repeat split|].
  destruct (network request) as [[response|]|err]; try now repeat split.
  destruct (negb (status response =? 200)%N); [now repeat split|].
  destruct (isAllowedDomain parseURL selfOrigin (url request)
            || startsWith (url request) selfOrigin); [|now repeat split].
  unfold detach, andThen, cachesOpen, cachePutRequest.
  destruct (putA request (clone response)), (putB request (clone response));
    now repeat split.
Qed.

(** ** The theorems on the sample platform *)

(** The sample parser on the URLs of the examples. *)
Example sampleParse_logo :
  sampleParse "https://shop.example/img/Logo.PNG" =
  Some {| origin := "https://shop.example";
          hostname := "shop.example";
          pathname := "/img/Logo.PNG" |}.
Proof. reflexivity. Qed.

Example sampleParse_foreign :
  sampleParse "https://media.example/pic.png" =
  Some {| origin := "https://media.example";
          hostname := "media.example";
          pathname := "/pic.png" |}.
Proof. reflexivity. Qed.

Example sampleParse_no_url : sampleParse "not a url" = None.
Proof. reflexivity. Qed.

(** C1 on the foreign image, fetched with status 200. *)
Lemma untrusted_response_not_cached_witness :
  onFetch sampleParse sampleOrigin sampleKeyOf networkUp putWorks
          foreignRequest emptyWorld =
  (RespondedWith (Fulfilled (Some pngResponse)),
   addFetched foreignRequest emptyWorld)
  /\ caches (addFetched foreignRequest emptyWorld) = caches emptyWorld.
Proof.
  apply (untrusted_response_not_cached sampleParse sampleOrigin sampleKeyOf
           networkUp putWorks foreignRequest pngResponse emptyWorld);
    reflexivity.
Defined.

(** C2 on the logo, whose path has the extension in upper case. *)
Lemma isImageRequest_true_iff_witness :
  (exists b, isImageRequest sampleParse logoRequest = Ok b) /\
  (isImageRequest sampleParse logoRequest = Ok true <->
   destination logoRequest = "image" \/
   exists ext,
     In ext [".jpg"; ".jpeg"; ".png"; ".gif"; ".webp"; ".svg"; ".ico"; ".bmp"]
     /\ Substring ext (toLowerCase "/img/Logo.PNG")).
Proof.
  apply (isImageRequest_true_iff sampleParse logoRequest
           {| origin := "https://shop.example";
              hostname := "shop.example";
              pathname := "/img/Logo.PNG" |}).
  reflexivity.
Defined.

(** C3 on a string that is no URL, on a URL of the own origin, and on a
    URL of another origin. *)
Lemma isAllowedDomain_spec_witness :
  isAllowedDomain sampleParse sampleOrigin "not a url" = false
  /\ isAllowedDomain sampleParse sampleOrigin
       "https://shop.example/img/Logo.PNG" = true
  /\ (isAllowedDomain sampleParse sampleOrigin
        "https://media.example/pic.png" = true <->
      exists domain,
        In domain ALLOWED_IMAGE_DOMAINS /\ Substring domain "media.example").
Proof.
  split; [|split].
  - apply (proj1 (isAllowedDomain_spec sampleParse sampleOrigin "not a url")).
    reflexivity.
  - apply (proj1 (proj2 (isAllowedDomain_spec sampleParse sampleOrigin
                           "https://shop.example/img/Logo.PNG"))
             {| origin := "https://shop.example";
                hostname := "shop.example";
                pathname := "/img/Logo.PNG" |});
      reflexivity.
  - apply (proj2 (proj2 (isAllowedDomain_spec sampleParse sampleOrigin
                           "https://media.example/pic.png"))
             {| origin := "https://media.example";
                hostname := "media.example";
                pathname := "/pic.png" |});
      [reflexivity | discriminate].
Defined.

(** C4 on the logo, already in the current generation. *)
Lemma cache_hit_served_from_cache_witness :
  exists cached w',
    storageMatch storageWithLogo (sampleKeyOf logoRequest) = Some cached
    /\ (exists name c,
           In (name, c) storageWithLogo
           /\ cacheMatch c (sampleKeyOf logoRequest) = Some cached)
    /\ onFetch sampleParse sampleOrigin sampleKeyOf networkDown putWorks
               logoRequest (worldWithCaches storageWithLogo) =
       (RespondedWith (Fulfilled (Some cached)), w')
    /\ fetched w' = []
    /\ caches w' = storageWithLogo
    /\ unhandled w' = [].
Proof.
  apply (cache_hit_served_from_cache sampleParse sampleOrigin sampleKeyOf
           networkDown putWorks logoRequest (worldWithCaches storageWithLogo));
    try reflexivity.
  exists "yaki-image-cache-v1",
    [("https://shop.example/img/Logo.PNG", pngResponse)], pngResponse.
  split; [now left | reflexivity].
Defined.

(** C5 on the logo, with the network down. *)
Lemma fetch_failure_gives_404_witness :
  exists synthetic w',
    onFetch sampleParse sampleOrigin sampleKeyOf networkDown putWorks
            logoRequest emptyWorld =
    (RespondedWith (Fulfilled (Some synthetic)), w')
    /\ status synthetic = 404%N
    /\ body synthetic = ""
    /\ unhandled w' = []
    /\ caches w' = []
    /\ console w' =
       [ConsoleError [Str "[SW] Fetch failed:";
                      Err "TypeError: Failed to fetch"]].
Proof.
  apply (fetch_failure_gives_404 sampleParse sampleOrigin sampleKeyOf
           networkDown putWorks logoRequest "TypeError: Failed to fetch"
           emptyWorld);
    reflexivity.
Defined.

(** C6 on the logo, answered with a redirect. *)
Lemma non_200_passed_through_witness :
  onFetch sampleParse sampleOrigin sampleKeyOf networkMoved putWorks
          logoRequest emptyWorld =
  (RespondedWith (Fulfilled (Some movedResponse)),
   addFetched logoRequest emptyWorld)
  /\ caches (addFetched logoRequest emptyWorld) = [].
Proof.
  apply (non_200_passed_through sampleParse sampleOrigin sampleKeyOf
           networkMoved putWorks logoRequest (Some movedResponse) emptyWorld);
    try reflexivity.
  right. exists movedResponse. split; [reflexivity | discriminate].
Defined.

(** C7 on the storage with three generations. *)
Lemma activate_prunes_old_generations_witness :
  storageKeys (caches (snd (onActivate (worldWithCaches storageWithGenerations))))
  = ["fonts"; "yaki-image-cache-v1"]
  /\ (List.length
        (filter (fun name => startsWith name "yaki-image-cache-")
           (storageKeys
              (caches (snd (onActivate
                              (worldWithCaches storageWithGenerations))))))
      <= 1)%nat.
Proof.
  split; [reflexivity|].
  apply (activate_prunes_old_generations
           (worldWithCaches storageWithGenerations)).
  repeat constructor; simpl; intuition discriminate.
Defined.

(** C8: the claim fails where the write is refused for lack of quota. The
    write did fail, and after the handler has run no line of the console
    reports an error: the console is the one of the run in which the write
    succeeds. *)
Lemma write_failure_is_not_logged :
  let failing :=
    snd (onFetch sampleParse sampleOrigin sampleKeyOf networkUp putOverQuota
                 logoRequest emptyWorld) in
  let succeeding :=
    snd (onFetch sampleParse sampleOrigin sampleKeyOf networkUp putWorks
                 logoRequest emptyWorld) in
  putOverQuota logoRequest pngResponse = Some "QuotaExceededError"
  /\ unhandled failing = ["QuotaExceededError"]
  /\ ~ (exists entry, In entry (console failing) /\ reportsError entry = true)
  /\ console failing = console succeeding
  /\ console failing =
     [ConsoleLog [Str "[SW] 💾 Cached:";
                  Str "https://shop.example/img/Logo.PNG..."]].
Proof.
  cbv zeta. repeat split.
  intros [entry [[<-|[]] H]]. discriminate H.
Qed.

(** C8, amended, on the same run. *)
Lemma write_failure_discarded_witness :
  onFetch sampleParse sampleOrigin sampleKeyOf networkUp putOverQuota
          logoRequest emptyWorld =
  (RespondedWith (Fulfilled (Some pngResponse)),
   mkWorld [("yaki-image-cache-v1", [])]
           [ConsoleLog [Str "[SW] 💾 Cached:"; Str (shortURL logoRequest)]]
           [logoRequest] [] ["QuotaExceededError"] false)
  /\ reportsError
       (ConsoleLog [Str "[SW] 💾 Cached:"; Str (shortURL logoRequest)]) = false.
Proof.
  apply (write_failure_discarded sampleParse sampleOrigin sampleKeyOf
           networkUp putOverQuota logoRequest pngResponse
           "QuotaExceededError" emptyWorld);
    reflexivity.
Defined.

(** C9: the claim fails on a request object whose URL string is no URL:
    [isImageRequest] throws, before it has looked at the destination. *)
Lemma isImageRequest_throws_on_malformed_url :
  sampleParse (url malformedRequest) = None
  /\ isImageRequest sampleParse malformedRequest = Throw invalidURL
  /\ ~ (exists b, isImageRequest sampleParse malformedRequest = Ok b).
Proof.
  repeat split. intros [b H]. discriminate H.
Qed.

(** C9, amended, on a page request, which parses and is no image, and on
    the request whose URL string is no URL. *)
Lemma isImageRequest_returns_when_parsed_witness :
  ((exists b, isImageRequest sampleParse pageRequest = Ok b)
   /\ onFetch sampleParse sampleOrigin sampleKeyOf networkUp putWorks
              pageRequest emptyWorld = (NotIntercepted, emptyWorld))
  /\ (isImageRequest sampleParse malformedRequest = Throw invalidURL
      /\ onFetch sampleParse sampleOrigin sampleKeyOf networkUp putWorks
                 malformedRequest emptyWorld =
         (ListenerThrew invalidURL, emptyWorld)).
Proof.
  split.
  - destruct (proj1 (isImageRequest_returns_when_parsed sampleParse
                       sampleOrigin sampleKeyOf networkUp putWorks pageRequest)
                {| origin := "https://shop.example";
                   hostname := "shop.example";
                   pathname := "/index.html" |} eq_refl) as [Hb Hw].
    split; [exact Hb | apply Hw; reflexivity].
  - destruct (proj2 (isImageRequest_returns_when_parsed sampleParse
                       sampleOrigin sampleKeyOf networkUp putWorks
                       malformedRequest) eq_refl) as [Ht Hw].
    split; [exact Ht | apply Hw; reflexivity].
Defined.

(** C10 on the world in which nothing has happened yet. *)
Lemma stats_on_missing_generation_witness :
  onMessage (Some {| action := "getCacheStats"; count := None |}) emptyWorld =
  (Fulfilled tt,
   mkWorld [("yaki-image-cache-v1", [])] [] []
           [{| action := "cacheStats"; count := Some 0 |}] [] false)
  /\ storageLookup [("yaki-image-cache-v1", [])] CACHE_NAME = Some [].
Proof.
  apply (stats_on_missing_generation
           {| action := "getCacheStats"; count := None |} emptyWorld);
    reflexivity.
Defined.

(** ** The further properties on the sample platform *)

(** X1: the logo is fetched once and then served from the cache. *)
Lemma fill_then_hit_witness :
  let run := onFetch sampleParse sampleOrigin sampleKeyOf networkUp putWorks in
  fst (run logoRequest emptyWorld) = RespondedWith (Fulfilled (Some pngResponse))
  /\ storageMatch (caches (snd (run logoRequest emptyWorld)))
                  (sampleKeyOf logoRequest) = Some pngResponse
  /\ fetched (snd (run logoRequest emptyWorld)) = [logoRequest]
  /\ exists w2,
      run logoRequest (snd (run logoRequest emptyWorld)) =
      (RespondedWith (Fulfilled (Some pngResponse)), w2)
      /\ fetched w2 = fetched (snd (run logoRequest emptyWorld))
      /\ caches w2 = caches (snd (run logoRequest emptyWorld)).
Proof.
  intros run.
  destruct (fill_then_hit sampleParse sampleOrigin sampleKeyOf networkUp
              putWorks logoRequest pngResponse emptyWorld
              eq_refl eq_refl eq_refl eq_refl eq_refl eq_refl eq_refl)
    as (Hfst & Hstored & _ & Hfetched & _ & Hagain).
  split; [exact Hfst|]. split; [exact Hstored|]. split; [exact Hfetched|].
  apply (Hagain logoRequest); reflexivity.
Defined.

(** X2: the cache of fonts is not touched by a request. *)
Lemma onFetch_touches_current_generation_only_witness :
  storageLookup
    (caches (snd (onFetch sampleParse sampleOrigin sampleKeyOf networkUp
                          putWorks logoRequest
                          (worldWithCaches storageWithGenerations))))
    "fonts" =
  storageLookup storageWithGenerations "fonts".
Proof.
  apply (proj1 (onFetch_touches_current_generation_only sampleParse
                  sampleOrigin sampleKeyOf networkUp putWorks logoRequest
                  (worldWithCaches storageWithGenerations)) "fonts").
  discriminate.
Defined.

(** X3: a POST of the logo and a GET of a page are left alone; the GET of
    the logo is answered. *)
Lemma onFetch_intercepts_iff_witness :
  let run := onFetch sampleParse sampleOrigin sampleKeyOf networkUp putWorks in
  run {| method := "POST"; url := url logoRequest; destination := "image" |}
      emptyWorld = (NotIntercepted, emptyWorld)
  /\ run pageRequest emptyWorld = (NotIntercepted, emptyWorld)
  /\ exists r w', run logoRequest emptyWorld = (RespondedWith r, w').
Proof.
  intros run. split; [|split].
  - apply (proj1 (proj2 (onFetch_intercepts_iff sampleParse sampleOrigin
                           sampleKeyOf networkUp putWorks
                           {| method := "POST"; url := url logoRequest;
                              destination := "image" |} emptyWorld))).
    discriminate.
  - apply (proj2 (proj2 (onFetch_intercepts_iff sampleParse sampleOrigin
                           sampleKeyOf networkUp putWorks pageRequest
                           emptyWorld))).
    reflexivity.
  - apply (proj2 (proj1 (onFetch_intercepts_iff sampleParse sampleOrigin
                           sampleKeyOf networkUp putWorks logoRequest
                           emptyWorld))).
    split; reflexivity.
Defined.


(** X8: a clear on the storage with three generations. *)
Lemma clear_removes_current_generation_witness :
  let w' :=
    snd (onMessage (Some {| action := "clearImageCache"; count := None |})
                   (worldWithCaches storageWithGenerations)) in
  storageKeys (caches w') = ["yaki-image-cache-v0"; "fonts"; "yaki-image-cache-v2"]
  /\ storageHas (caches w') CACHE_NAME = false
  /\ posted w' = [{| action := "cacheCleared"; count := None |}].
Proof.
  intros w'.
  destruct (clear_removes_current_generation
              {| action := "clearImageCache"; count := None |}
              (worldWithCaches storageWithGenerations) eq_refl)
    as (_ & Hgone & _ & _ & Hposted & _).
  split; [reflexivity|]. split; [exact Hgone | exact Hposted].
Defined.

(** X9: statistics on the storage that holds the logo. *)
Lemma stats_counts_entries_witness :
  onMessage (Some {| action := "getCacheStats"; count := None |})
            (worldWithCaches storageWithLogo) =
  (Fulfilled tt,
   addPosted {| action := "cacheStats"; count := Some 1 |}
             (worldWithCaches storageWithLogo)).
Proof.
  apply (stats_counts_entries
           {| action := "getCacheStats"; count := None |}
           [("https://shop.example/img/Logo.PNG", pngResponse)]
           (worldWithCaches storageWithLogo));
    reflexivity.
Defined.

(** X10: a message with no data and one with an unknown action. *)
Lemma unrecognised_message_ignored_witness :
  onMessage None emptyWorld = (Fulfilled tt, emptyWorld)
  /\ onMessage (Some {| action := "ping"; count := None |})
               (worldWithCaches storageWithLogo) =
     (Fulfilled tt, worldWithCaches storageWithLogo).
Proof.
  split.
  - apply (unrecognised_message_ignored None emptyWorld). now left.
  - apply (unrecognised_message_ignored
             (Some {| action := "ping"; count := None |})
             (worldWithCaches storageWithLogo)).
    right. exists {| action := "ping"; count := None |}.
    repeat split; discriminate.
Defined.

(** X11: clear and then statistics on the storage that holds the logo. *)
Lemma clear_then_stats_is_zero_witness :
  let w' :=
    snd (onMessage (Some {| action := "getCacheStats"; count := None |})
           (snd (onMessage (Some {| action := "clearImageCache"; count := None |})
                           (worldWithCaches storageWithLogo)))) in
  posted w' = [{| action := "cacheCleared"; count := None |};
               {| action := "cacheStats"; count := Some 0 |}]
  /\ storageLookup (caches w') CACHE_NAME = Some [].
Proof.
  apply (clear_then_stats_is_zero
           {| action := "clearImageCache"; count := None |}
           {| action := "getCacheStats"; count := None |}
           (worldWithCaches storageWithLogo));
    reflexivity.
Defined.


(** X15: a banner is filled into the storage whose current generation
    holds the logo; the statistics then count two entries. *)
Lemma stats_after_fill_witness :
  posted
    (snd (onMessage (Some {| action := "getCacheStats"; count := None |})
            (snd (onFetch sampleParse sampleOrigin sampleKeyOf networkUp
                          putWorks
                          {| method := "GET";
                             url := "https://shop.example/img/banner.jpg";
                             destination := "image" |}
                          (worldWithCaches storageWithGenerations))))) =
  [{| action := "cacheStats"; count := Some 2 |}].
Proof.
  apply (stats_after_fill sampleParse sampleOrigin sampleKeyOf networkUp
           putWorks
           {| method := "GET";
              url := "https://shop.example/img/banner.jpg";
              destination := "image" |}
           pngResponse
           {| action := "getCacheStats"; count := None |}
           (worldWithCaches storageWithGenerations));
    reflexivity.
Defined.

(** X16: the logo's URL is short and is logged whole. *)
Lemma shortURL_bounded_witness :
  shortURL logoRequest = "https://shop.example/img/Logo.PNG...".
Proof.
  apply (proj2 (proj2 (shortURL_bounded logoRequest))).
  simpl. lia.
Defined.
